(** * device_ptr.h: a shallow embedding of the device pointer wrapper

    [device_ptr<T>] (primary template, src/device_ptr.h lines 44-225) wraps a
    raw [T*]; the partial specialisation for cv [void] (lines 227-320) wraps a
    [void*].  The development has three layers:

    - the element types and the rules of the language the header relies on
      (implicit pointer conversions, pointer-to-integer casts);
    - the declarations of the header that decide which conversions exist and
      which of them are [explicit];
    - the run-time behaviour: a wrapper is its address, by-value friends are
      pure functions, member functions that assign to [ptr] run on a store of
      objects addressed by location, so that references may alias. *)

From stdpp Require Import base decidable option numbers strings gmap.

Local Open Scope Z_scope.

(** ** Element types *)

(** The pointee of an instantiation: [void] or an object type, known by its
    name and its [sizeof].  Volatile is not modelled. *)
Inductive elem : Type :=
  | Void
  | Obj (name : string) (size : positive).

(** A possibly const-qualified element type: the template argument [T]. *)
Record cty : Type := CTy { base : elem; is_const : bool }.

#[global] Instance elem_eq_dec : EqDecision elem.
Proof. solve_decision. Defined.

#[global] Instance cty_eq_dec : EqDecision cty.
Proof. solve_decision. Defined.

(** [std::is_void<T>] (true for cv-qualified void as well). *)
Definition is_void (T : cty) : bool :=
  match base T with Void => true | Obj _ _ => false end.

(** [std::remove_const_t<T>]. *)
Definition remove_const (T : cty) : cty := CTy (base T) false.

(** [const T]. *)
Definition add_const (T : cty) : cty := CTy (base T) true.

(** [sizeof(T)], the unit of pointer arithmetic on [T*].  The value at
    [void] is never used: the specialisation declares no arithmetic. *)
Definition sizeof (T : cty) : Z :=
  match base T with Void => 1 | Obj _ sz => Z.pos sz end.

(** The pointee of the member [ptr]: [T* ptr] in the primary template
    (line 224), [void* ptr] in the specialisation, whatever the
    qualification of [Void] (line 319). *)
Definition member_ty (T : cty) : cty :=
  if is_void T then CTy Void false else T.

(** ** Raw pointers *)

(** A raw pointer is its address on a flat 64-bit machine; null is 0. *)
Definition ptr_bits : Z := 64.
Definition ptr_modulus : Z := 2 ^ ptr_bits.
Definition nullptr : Z := 0.

Definition valid_addr (p : Z) : Prop := 0 <= p < ptr_modulus.

(** [p + n] on a [T*]: [n] elements further, wrapping at the pointer width. *)
Definition raw_add (T : cty) (p n : Z) : Z := (p + n * sizeof T) mod ptr_modulus.

(** [p - n] on a [T*]. *)
Definition raw_sub (T : cty) (p n : Z) : Z := (p - n * sizeof T) mod ptr_modulus.

(** The implicit (standard) conversion from [S*] to [D*]: the pointee is the
    same or the target is [void], and no [const] is dropped. *)
Definition ptr_implicit (S D : cty) : bool :=
  (bool_decide (base S = base D) || is_void D)
  && implb (is_const S) (is_const D).

(** ** Integral types *)

(** The standard integral types other than [bool], by width and signedness. *)
Inductive int_width : Type := W8 | W16 | W32 | W64.

Record int_ty : Type := IntTy { width : int_width; signed : bool }.

Definition bits (w : int_width) : Z :=
  match w with W8 => 8 | W16 => 16 | W32 => 32 | W64 => 64 end.

Definition int_min (I : int_ty) : Z :=
  if signed I then - 2 ^ (bits (width I) - 1) else 0.

Definition int_max (I : int_ty) : Z :=
  if signed I then 2 ^ (bits (width I) - 1) - 1 else 2 ^ bits (width I) - 1.

Definition in_range (I : int_ty) (v : Z) : Prop := int_min I <= v <= int_max I.

(** The value of type [I] with the bit pattern of [v]. *)
Definition wrap_int (I : int_ty) (v : Z) : Z :=
  let m := v mod 2 ^ bits (width I) in
  if signed I && (2 ^ (bits (width I) - 1) <=? m) then m - 2 ^ bits (width I)
  else m.

(** [(Integral)p] on a raw pointer: a pointer casts only to an integral type
    wide enough for it, and the bits are kept.  [None] stands for a cast the
    compiler rejects. *)
Definition cast_ptr_to_int (I : int_ty) (p : Z) : option Z :=
  if bits (width I) <? ptr_bits then None else Some (wrap_int I p).

(** ** The wrapper *)

(** [device_ptr<T>]: one private member, [ptr] (lines 223-224, 318-319). *)
Record device_ptr (T : cty) : Type := DevicePtr { ptr : Z }.
Arguments DevicePtr {T} _.
Arguments ptr {T} _.

(** [device_ptr(decltype(nullptr)) : ptr{nullptr}] (lines 60, 237). *)
Definition device_ptr_null (T : cty) : device_ptr T := DevicePtr nullptr.

(** [explicit device_ptr(T* ptr) : ptr{ptr}] (line 62; [void*] at line 239). *)
Definition device_ptr_raw (T : cty) (p : Z) : device_ptr T := DevicePtr p.

(** [friend T* get(device_ptr x) { return x.ptr; }] (lines 218-221, 313-316). *)
Definition get {T : cty} (x : device_ptr T) : Z := ptr x.

(** ** Comparison (by-value friends, lines 147-176 and 241-270) *)

Definition op_eq {T : cty} (x y : device_ptr T) : bool := ptr x =? ptr y.
Definition op_ne {T : cty} (x y : device_ptr T) : bool := negb (ptr x =? ptr y).
Definition op_lt {T : cty} (x y : device_ptr T) : bool := ptr x <? ptr y.
Definition op_le {T : cty} (x y : device_ptr T) : bool := ptr x <=? ptr y.
Definition op_gt {T : cty} (x y : device_ptr T) : bool := ptr x >? ptr y.
Definition op_ge {T : cty} (x y : device_ptr T) : bool := ptr x >=? ptr y.

(** ** Conversions to scalar types *)

(** [explicit operator bool() const { return ptr; }] (lines 190-194, 278-282). *)
Definition op_bool {T : cty} (x : device_ptr T) : bool := negb (ptr x =? nullptr).

(** [explicit operator Integral() const { return (Integral)ptr; }]
    (lines 184-189, 272-277). *)
Definition op_Integral {T : cty} (I : int_ty) (x : device_ptr T) : option Z :=
  cast_ptr_to_int I (ptr x).

(** [explicit operator T*() const]: [return ptr;] in the primary template
    (lines 195-199), [return static_cast<T*>(ptr);] in the specialisation
    (lines 283-288). *)
Definition op_T_ptr {S : cty} (x : device_ptr S) : Z := ptr x.

(** ** The declared conversions *)

(** The converting constructors and conversion functions of the header. *)
Inductive member : Type :=
  | ctor_nullptr        (* line 60 / 237 *)
  | ctor_raw            (* line 62 / 239 *)
  | ctor_widen          (* lines 64-66 *)
  | ctor_Void           (* lines 68-70 *)
  | ctor_const_Void     (* lines 71-73 *)
  | op_device_ptr_Void  (* lines 178-183 *)
  | conv_Integral       (* lines 184-189 / 272-277 *)
  | conv_bool           (* lines 190-194 / 278-282 *)
  | conv_T_ptr          (* lines 195-199 / 283-294 *)
  | conv_void_ptr       (* lines 200-204 / 295-299 *)
  | conv_const_void_ptr (* lines 205-209 / 300-304 *).

Definition members : list member :=
  [ctor_nullptr; ctor_raw; ctor_widen; ctor_Void; ctor_const_Void;
   op_device_ptr_Void; conv_Integral; conv_bool; conv_T_ptr; conv_void_ptr;
   conv_const_void_ptr].

(** Whether the declaration carries the [explicit] keyword. *)
Definition explicit (m : member) : bool :=
  match m with
  | ctor_nullptr | ctor_widen | op_device_ptr_Void => false
  | ctor_raw | ctor_Void | ctor_const_Void
  | conv_Integral | conv_bool | conv_T_ptr | conv_void_ptr
  | conv_const_void_ptr => true
  end.

(** Whether [device_ptr<T>] declares the member: the specialisation for
    [void] has neither the constructors from other instantiations nor the
    conversion to [device_ptr<Void>]. *)
Definition declared_in (m : member) (T : cty) : bool :=
  match m with
  | ctor_widen | ctor_Void | ctor_const_Void | op_device_ptr_Void =>
      negb (is_void T)
  | _ => true
  end.

(** [viable m S D]: member [m] converts a [device_ptr<S>] to a
    [device_ptr<D>], that is, it is declared, template argument deduction
    succeeds and its [enable_if] guard holds.  Constructors belong to [D],
    the conversion function to [S].  The members to and from raw pointers,
    integers and [bool] never do: an argument reaches a constructor
    parameter through an implicit conversion only, and every conversion
    function to such a type is [explicit]. *)
Definition viable (m : member) (S D : cty) : bool :=
  match m with
  | ctor_widen =>
      declared_in m D && is_const D && bool_decide (S = remove_const D)
  | ctor_Void =>
      declared_in m D && is_void S
  | ctor_const_Void =>
      declared_in m D && is_const S && is_void (remove_const S)
  | op_device_ptr_Void =>
      declared_in m S && is_void D
  | _ => false
  end.

(** Whether the body of [m] is well-formed once instantiated.  The three
    constructors initialise [ptr{dp.ptr}]; the conversion function returns
    [device_ptr<Void>{ptr}], which passes [ptr] to the [void*] parameter of
    line 239.  Either way one member pointer initialises the other. *)
Definition body_ok (m : member) (S D : cty) : bool :=
  match m with
  | ctor_widen | ctor_Void | ctor_const_Void | op_device_ptr_Void =>
      ptr_implicit (member_ty S) (member_ty D)
  | _ => true
  end.

(** The run-time effect of the four members: the address is copied. *)
Definition convert_value {S : cty} (D : cty) (x : device_ptr S) : device_ptr D :=
  DevicePtr (ptr x).

(** Converting [x] through [m]; [None] when the program does not compile. *)
Definition convert (m : member) {S : cty} (D : cty) (x : device_ptr S)
  : option (device_ptr D) :=
  if viable m S D && body_ok m S D then Some (convert_value D x) else None.

(** An implicit conversion from [device_ptr<S>] to [device_ptr<D>] exists:
    the copy constructor, or a viable member that is not [explicit]. *)
Definition implicitly_convertible (S D : cty) : bool :=
  bool_decide (S = D)
  || existsb (fun m => viable m S D && negb (explicit m)) members.

(** Some member, explicit or not, takes [device_ptr<S>] to [device_ptr<D>]. *)
Definition explicitly_convertible (S D : cty) : bool :=
  bool_decide (S = D) || existsb (fun m => viable m S D) members.

(** ** Objects in a store *)

(** Member functions that assign to [ptr] act on objects, and two references
    may name the same object.  An object is a location, the store maps it to
    the value of its [ptr] member. *)
Definition loc : Type := positive.

Abbreviation store := (gmap loc Z).

(** A computation reads and updates the store and fails on a location that
    holds no object. *)
Definition M (A : Type) : Type := store → option (A * store).

Definition ret {A : Type} (a : A) : M A := λ s, Some (a, s).

Definition bind {A B : Type} (m : M A) (k : A → M B) : M B :=
  λ s, match m s with
       | Some (a, s') => k a s'
       | None => None
       end.

Declare Scope cpp_scope.
Delimit Scope cpp_scope with cpp.
Notation "x <- m ;; k" := (bind m (λ x, k))
  (at level 100, m at next level, right associativity) : cpp_scope.
Notation "m ;;; k" := (bind m (λ _, k))
  (at level 100, right associativity) : cpp_scope.
Local Open Scope cpp_scope.

(** Reading [x.ptr] through a reference [x]. *)
Definition read_ptr (x : loc) : M Z :=
  λ s, match s !! x with
       | Some p => Some (p, s)
       | None => None
       end.

(** Assigning [x.ptr = p] through a reference [x]. *)
Definition assign_ptr (x : loc) (p : Z) : M unit :=
  λ s, match s !! x with
       | Some _ => Some (tt, <[x := p]> s)
       | None => None
       end.

(** A local object initialised with [p], alive while [body] runs. *)
Definition with_local {A : Type} (p : Z) (body : loc → M A) : M A :=
  λ s, let l := fresh (dom s) in
       match body l (<[l := p]> s) with
       | Some (a, s') => Some (a, delete l s')
       | None => None
       end.

(** [device_ptr& operator+=(std::ptrdiff_t n) { ptr += n; return *this; }]
    (lines 104-109). *)
Definition op_plus_assign (T : cty) (this : loc) (n : Z) : M loc :=
  p <- read_ptr this ;;
  assign_ptr this (raw_add T p n) ;;;
  ret this.

(** [device_ptr operator+(std::ptrdiff_t n) const
       { auto tmp = *this; return tmp += n; }] (lines 110-115). *)
Definition op_plus (T : cty) (this : loc) (n : Z) : M (device_ptr T) :=
  p <- read_ptr this ;;
  with_local p (λ tmp,
    r <- op_plus_assign T tmp n ;;
    q <- read_ptr r ;;
    ret (DevicePtr q)).

(** [device_ptr& operator-=(std::ptrdiff_t n) { ptr -= n; return *this; }]
    (lines 129-134). *)
Definition op_minus_assign (T : cty) (this : loc) (n : Z) : M loc :=
  p <- read_ptr this ;;
  assign_ptr this (raw_sub T p n) ;;;
  ret this.

(** [device_ptr operator-(std::ptrdiff_t n) const
       { auto tmp = *this; return tmp -= n; }] (lines 135-140). *)
Definition op_minus (T : cty) (this : loc) (n : Z) : M (device_ptr T) :=
  p <- read_ptr this ;;
  with_local p (λ tmp,
    r <- op_minus_assign T tmp n ;;
    q <- read_ptr r ;;
    ret (DevicePtr q)).

(** [std::swap(a, b)] on two [ptr] members. *)
Definition std_swap (a b : loc) : M unit :=
  tmp <- read_ptr a ;;
  v <- read_ptr b ;;
  assign_ptr a v ;;;
  assign_ptr b tmp.

(** [friend void swap(device_ptr& x, device_ptr& y)
       { std::swap(x.ptr, y.ptr); }] (lines 211-215, 306-310). *)
Definition swap (x y : loc) : M unit := std_swap x y.

(** A member function called on a prvalue [x]: the temporary is
    materialised for the duration of the call. *)
Definition on_temporary {T : cty} {A : Type} (x : device_ptr T)
    (call : loc → M A) : M A :=
  with_local (ptr x) call.

(** ** The remaining members of the primary template *)

(** [std::ptrdiff_t]: the signed integer of pointer width. *)
Definition ptrdiff_t : int_ty := IntTy W64 true.

(** [p - q] on two [T*]: the signed byte distance divided by [sizeof(T)],
    a number for every pair of addresses.  The division rounds towards
    zero; it is exact for two elements of one array, the only case for
    which the language fixes the result. *)
Definition raw_diff (T : cty) (p q : Z) : Z :=
  wrap_int ptrdiff_t (p - q) ÷ sizeof T.

(** [std::ptrdiff_t operator-(device_ptr rhs) const
       { return ptr - rhs.ptr; }] (lines 141-145). *)
Definition op_diff {T : cty} (x rhs : device_ptr T) : Z :=
  raw_diff T (ptr x) (ptr rhs).

(** [device_ptr operator++(int) { auto tmp = *this; ptr++; return tmp; }]
    (lines 91-97). *)
Definition op_post_inc (T : cty) (this : loc) : M (device_ptr T) :=
  p <- read_ptr this ;;
  with_local p (λ tmp,
    p' <- read_ptr this ;;
    assign_ptr this (raw_add T p' 1) ;;;
    q <- read_ptr tmp ;;
    ret (DevicePtr q)).

(** [device_ptr& operator++() { ptr++; return *this; }] (lines 98-103). *)
Definition op_pre_inc (T : cty) (this : loc) : M loc :=
  p <- read_ptr this ;;
  assign_ptr this (raw_add T p 1) ;;;
  ret this.

(** [device_ptr operator--(int) { auto tmp = *this; ptr--; return tmp; }]
    (lines 116-122). *)
Definition op_post_dec (T : cty) (this : loc) : M (device_ptr T) :=
  p <- read_ptr this ;;
  with_local p (λ tmp,
    p' <- read_ptr this ;;
    assign_ptr this (raw_sub T p' 1) ;;;
    q <- read_ptr tmp ;;
    ret (DevicePtr q)).

(** [device_ptr& operator--() { ptr--; return *this; }] (lines 123-128). *)
Definition op_pre_dec (T : cty) (this : loc) : M loc :=
  p <- read_ptr this ;;
  assign_ptr this (raw_sub T p 1) ;;;
  ret this.

(** The access operators return an lvalue or a raw pointer; either is the
    address of the object it designates.

    [T& operator*() const { return *ptr; }] (lines 75-79). *)
Definition op_deref {T : cty} (x : device_ptr T) : Z := ptr x.

(** [T& operator[](std::ptrdiff_t n) const { return ptr[n]; }]
    (lines 80-84); [ptr[n]] is the element [n] places after [ptr]. *)
Definition op_index {T : cty} (x : device_ptr T) (n : Z) : Z :=
  raw_add T (ptr x) n.

(** [T* operator->() const { return ptr; }] (lines 85-89). *)
Definition op_arrow {T : cty} (x : device_ptr T) : Z := ptr x.

(** [explicit operator void*() const { return ptr; }]
    (lines 200-204, 295-299): the member pointer converts to [void*]. *)
Definition op_void_ptr {T : cty} (x : device_ptr T) : option Z :=
  if ptr_implicit (member_ty T) (CTy Void false) then Some (ptr x) else None.

(** [explicit operator const void*() const { return ptr; }]
    (lines 205-209, 300-304). *)
Definition op_const_void_ptr {T : cty} (x : device_ptr T) : option Z :=
  if ptr_implicit (member_ty T) (CTy Void true) then Some (ptr x) else None.

(** ** Sample instantiations *)

Definition int_t : cty := CTy (Obj "int" 4) false.
Definition void_t : cty := CTy Void false.
Definition int64_t : int_ty := IntTy W64 true.
Definition uint64_t : int_ty := IntTy W64 false.

(** Two objects, at locations 1 and 2. *)
Definition two_objects : store := <[2%positive := 4096]> {[1%positive := 8]}.

(** ** Tactics *)

(** Case analysis on every comparison of two addresses. *)
Ltac compare_addresses :=
  repeat match goal with
    | |- context [?a <? ?b] => destruct (Z.ltb_spec a b)
    | |- context [?a <=? ?b] => destruct (Z.leb_spec a b)
    | |- context [?a =? ?b] => destruct (Z.eqb_spec a b)
    | H : context [?a <? ?b] |- _ => destruct (Z.ltb_spec a b)
    | H : context [?a <=? ?b] |- _ => destruct (Z.leb_spec a b)
    | H : context [?a =? ?b] |- _ => destruct (Z.eqb_spec a b)
    end; simpl in *; try lia; try congruence.

(** * Properties *)

(** ** The store operations *)

Section store_lemmas.
Context {A : Type}.
Implicit Types (s : store) (x : loc) (p : Z).

Lemma read_ptr_Some s x p :
  s !! x = Some p → read_ptr x s = Some (p, s).
Proof. unfold read_ptr. by intros ->. Qed.

Lemma assign_ptr_Some s x p q :
  s !! x = Some p → assign_ptr x q s = Some (tt, <[x := q]> s).
Proof. unfold assign_ptr. by intros ->. Qed.

Lemma fresh_unallocated s : s !! fresh (dom s) = None.
Proof. apply not_elem_of_dom, is_fresh. Qed.

(** A local that the body only overwrites leaves no trace in the store. *)
Lemma with_local_Some s p q (a : A) (body : loc → M A) :
  (∀ l, s !! l = None →
        body l (<[l := p]> s) = Some (a, <[l := q]> s)) →
  with_local p body s = Some (a, s).
Proof.
  intros Hbody. unfold with_local.
  rewrite (Hbody _ (fresh_unallocated s)).
  by rewrite delete_insert_id by apply fresh_unallocated.
Qed.
End store_lemmas.

Lemma op_plus_assign_Some T (s : store) this n p :
  s !! this = Some p →
  op_plus_assign T this n s = Some (this, <[this := raw_add T p n]> s).
Proof.
  intros Hp. unfold op_plus_assign, bind, ret.
  by rewrite (read_ptr_Some _ _ _ Hp), (assign_ptr_Some _ _ _ _ Hp).
Qed.

Lemma op_minus_assign_Some T (s : store) this n p :
  s !! this = Some p →
  op_minus_assign T this n s = Some (this, <[this := raw_sub T p n]> s).
Proof.
  intros Hp. unfold op_minus_assign, bind, ret.
  by rewrite (read_ptr_Some _ _ _ Hp), (assign_ptr_Some _ _ _ _ Hp).
Qed.

(** [x + n] returns the advanced pointer and restores the store. *)
Lemma op_plus_Some T (s : store) this n p :
  s !! this = Some p →
  op_plus T this n s = Some (DevicePtr (raw_add T p n), s).
Proof.
  intros Hp. unfold op_plus, bind at 1.
  rewrite (read_ptr_Some _ _ _ Hp).
  apply with_local_Some with (q := raw_add T p n).
  intros l _. unfold bind, ret.
  rewrite (op_plus_assign_Some T _ l n p) by apply lookup_insert_eq.
  rewrite insert_insert_eq.
  by rewrite (read_ptr_Some _ l (raw_add T p n)) by apply lookup_insert_eq.
Qed.

Lemma op_minus_Some T (s : store) this n p :
  s !! this = Some p →
  op_minus T this n s = Some (DevicePtr (raw_sub T p n), s).
Proof.
  intros Hp. unfold op_minus, bind at 1.
  rewrite (read_ptr_Some _ _ _ Hp).
  apply with_local_Some with (q := raw_sub T p n).
  intros l _. unfold bind, ret.
  rewrite (op_minus_assign_Some T _ l n p) by apply lookup_insert_eq.
  rewrite insert_insert_eq.
  by rewrite (read_ptr_Some _ l (raw_sub T p n)) by apply lookup_insert_eq.
Qed.

(** A const member function that restores the store, called on a prvalue. *)
Lemma on_temporary_Some {T : cty} {A : Type} (x : device_ptr T) (a : A)
    (call : loc → M A) (s : store) :
  (∀ l (s' : store), s' !! l = Some (ptr x) → call l s' = Some (a, s')) →
  on_temporary x call s = Some (a, s).
Proof.
  intros Hcall. unfold on_temporary.
  apply with_local_Some with (q := ptr x).
  intros l _. apply Hcall, lookup_insert_eq.
Qed.

(** ** Pointer arithmetic *)

Lemma ptr_modulus_pos : 0 < ptr_modulus.
Proof. reflexivity. Qed.

Lemma raw_add_valid T p n : valid_addr (raw_add T p n).
Proof. apply Z.mod_pos_bound, ptr_modulus_pos. Qed.

Lemma raw_sub_raw_add T p n :
  valid_addr p → raw_sub T (raw_add T p n) n = p.
Proof.
  intros Hp. unfold raw_sub, raw_add.
  rewrite Zminus_mod_idemp_l.
  replace (p + n * sizeof T - n * sizeof T) with p by lia.
  by apply Z.mod_small.
Qed.

(** ** Construction and extraction *)

(** C1: for every raw address [p], the free accessor applied to the pointer
    explicitly constructed from [p] returns [p]. *)
Theorem get_device_ptr_raw (T : cty) (p : Z) :
  get (device_ptr_raw T p) = p.
Proof. unfold get, device_ptr_raw. simpl. reflexivity. Qed.

(** C7: a pointer constructed from the null token converts to [false], a
    pointer constructed from a non-null raw address converts to [true]. *)
Theorem op_bool_null_nonnull (T : cty) (p : Z) :
  p ≠ nullptr →
  op_bool (device_ptr_null T) = false ∧ op_bool (device_ptr_raw T p) = true.
Proof.
  intros Hp. split; [reflexivity|].
  unfold op_bool, device_ptr_raw; simpl.
  apply negb_true_iff, Z.eqb_neq, Hp.
Qed.

Lemma op_bool_null_nonnull_witness :
  4096 ≠ nullptr ∧
  op_bool (device_ptr_null int_t) = false ∧
  op_bool (device_ptr_raw int_t 4096) = true.
Proof.
  split; [unfold nullptr; lia|].
  apply (op_bool_null_nonnull int_t 4096). unfold nullptr; lia.
Defined.

(** ** Comparison *)

(** C4: of [x < y], [x == y], [x > y] exactly one holds, and each of the six
    operators holds exactly when the wrapped addresses are so ordered. *)
Theorem comparison_total_order (T : cty) (x y : device_ptr T) :
  (op_lt x y && negb (op_eq x y) && negb (op_gt x y)
   || negb (op_lt x y) && op_eq x y && negb (op_gt x y)
   || negb (op_lt x y) && negb (op_eq x y) && op_gt x y) = true
  ∧ (op_eq x y = true ↔ get x = get y)
  ∧ (op_ne x y = true ↔ get x ≠ get y)
  ∧ (op_lt x y = true ↔ get x < get y)
  ∧ (op_le x y = true ↔ get x <= get y)
  ∧ (op_gt x y = true ↔ get x > get y)
  ∧ (op_ge x y = true ↔ get x >= get y).
Proof.
  unfold op_lt, op_eq, op_ne, op_le, op_gt, op_ge, get.
  rewrite Z.gtb_ltb, Z.geb_leb.
  repeat split; try intros Hc;
    repeat match goal with
    | |- context [?a <? ?b] => destruct (Z.ltb_spec a b)
    | |- context [?a <=? ?b] => destruct (Z.leb_spec a b)
    | |- context [?a =? ?b] => destruct (Z.eqb_spec a b)
    | H : context [?a <? ?b] |- _ => destruct (Z.ltb_spec a b)
    | H : context [?a <=? ?b] |- _ => destruct (Z.leb_spec a b)
    | H : context [?a =? ?b] |- _ => destruct (Z.eqb_spec a b)
    end; simpl in *; try lia; try congruence.
Qed.

(** ** Arithmetic *)

(** C5: for an object [x] holding a valid address and every offset [n],
    [get(x + n)] is [get(x) + n] on the raw pointer, and [(x + n) - n]
    compares equal to [x]. *)
Theorem plus_then_minus (T : cty) (s : store) (x : loc) (p n : Z) :
  s !! x = Some p →
  valid_addr p →
  ∃ y z : device_ptr T,
    op_plus T x n s = Some (y, s)
    ∧ get y = raw_add T p n
    ∧ on_temporary y (λ this, op_minus T this n) s = Some (z, s)
    ∧ op_eq z (DevicePtr p) = true.
Proof.
  intros Hx Hp.
  exists (DevicePtr (raw_add T p n)), (DevicePtr p).
  split; [by apply op_plus_Some|].
  split; [reflexivity|].
  split.
  - apply on_temporary_Some. intros l s' Hl; simpl in Hl.
    rewrite (op_minus_Some T s' l n _ Hl).
    by rewrite raw_sub_raw_add.
  - unfold op_eq; simpl. apply Z.eqb_refl.
Qed.

Lemma plus_then_minus_witness :
  ∃ y z : device_ptr int_t,
    op_plus int_t 2%positive 3 two_objects = Some (y, two_objects)
    ∧ get y = raw_add int_t 4096 3
    ∧ on_temporary y (λ this, op_minus int_t this 3) two_objects
      = Some (z, two_objects)
    ∧ op_eq z (DevicePtr 4096) = true.
Proof.
  apply (plus_then_minus int_t two_objects 2%positive 4096 3).
  - reflexivity.
  - unfold valid_addr, ptr_modulus, ptr_bits. lia.
Defined.

(** C10: evaluating [x + n] or [x - n] yields the moved pointer as a new
    value and leaves the object [x], and every other object, as it was. *)
Theorem binary_plus_minus_frame (T : cty) (s : store) (x : loc) (p n : Z) :
  s !! x = Some p →
  ∃ (y z : device_ptr T) (s1 s2 : store),
    op_plus T x n s = Some (y, s1)
    ∧ get y = raw_add T p n ∧ s1 !! x = Some p ∧ s1 = s
    ∧ op_minus T x n s = Some (z, s2)
    ∧ get z = raw_sub T p n ∧ s2 !! x = Some p ∧ s2 = s.
Proof.
  intros Hx.
  exists (DevicePtr (raw_add T p n)), (DevicePtr (raw_sub T p n)), s, s.
  rewrite (op_plus_Some T s x n p Hx), (op_minus_Some T s x n p Hx).
  by repeat split.
Qed.

Lemma binary_plus_minus_frame_witness :
  ∃ (y z : device_ptr int_t) (s1 s2 : store),
    op_plus int_t 2%positive 3 two_objects = Some (y, s1)
    ∧ get y = raw_add int_t 4096 3
    ∧ s1 !! 2%positive = Some 4096 ∧ s1 = two_objects
    ∧ op_minus int_t 2%positive 3 two_objects = Some (z, s2)
    ∧ get z = raw_sub int_t 4096 3
    ∧ s2 !! 2%positive = Some 4096 ∧ s2 = two_objects.
Proof.
  apply (binary_plus_minus_frame int_t two_objects 2%positive 4096 3).
  reflexivity.
Defined.

(** ** Swap *)

Lemma std_swap_Some (s : store) (a b : loc) (pa pb : Z) :
  s !! a = Some pa →
  s !! b = Some pb →
  std_swap a b s = Some (tt, <[b := pa]> (<[a := pb]> s)).
Proof.
  intros Ha Hb. unfold std_swap, bind.
  rewrite (read_ptr_Some _ _ _ Ha), (read_ptr_Some _ _ _ Hb).
  rewrite (assign_ptr_Some _ _ _ _ Ha).
  destruct (decide (a = b)) as [->|Hne].
  - by rewrite (assign_ptr_Some _ b pb pa) by apply lookup_insert_eq.
  - by rewrite (assign_ptr_Some _ b pb pa) by by rewrite lookup_insert_ne.
Qed.

(** C9: after [swap(a, b)] the object [a] holds the address [b] held before
    and [b] holds the address [a] held before; no other object changes. *)
Theorem swap_exchanges (s : store) (a b : loc) (pa pb : Z) :
  s !! a = Some pa →
  s !! b = Some pb →
  ∃ s' : store,
    swap a b s = Some (tt, s')
    ∧ s' !! a = Some pb
    ∧ s' !! b = Some pa
    ∧ ∀ l, l ≠ a → l ≠ b → s' !! l = s !! l.
Proof.
  intros Ha Hb. exists (<[b := pa]> (<[a := pb]> s)).
  split; [by apply std_swap_Some|].
  split; [|split].
  - destruct (decide (a = b)) as [->|Hne].
    + rewrite lookup_insert_eq. congruence.
    + rewrite lookup_insert_ne by done. apply lookup_insert_eq.
  - apply lookup_insert_eq.
  - intros l Hla Hlb. by rewrite !lookup_insert_ne.
Qed.

Lemma swap_exchanges_witness :
  ∃ s' : store,
    swap 1%positive 2%positive two_objects = Some (tt, s')
    ∧ s' !! 1%positive = Some 4096
    ∧ s' !! 2%positive = Some 8
    ∧ ∀ l, l ≠ 1%positive → l ≠ 2%positive → s' !! l = two_objects !! l.
Proof.
  apply (swap_exchanges two_objects 1%positive 2%positive 8 4096);
    reflexivity.
Defined.

(** ** Conversion to an integral type *)

Lemma wrap_int_in_range (I : int_ty) (v : Z) : in_range I (wrap_int I v).
Proof.
  unfold in_range, int_min, int_max, wrap_int.
  destruct I as [w sg]; simpl.
  assert (Hpow : 2 ^ bits w = 2 * 2 ^ (bits w - 1)) by (by destruct w).
  assert (Hpos : 0 < 2 ^ (bits w - 1)) by (by destruct w).
  pose proof (Z.mod_pos_bound v (2 ^ bits w)) as Hm.
  destruct sg; simpl; [destruct (Z.leb_spec (2 ^ (bits w - 1)) (v mod 2 ^ bits w))|];
    lia.
Qed.

Lemma wrap_int_id (I : int_ty) (v : Z) : in_range I v → wrap_int I v = v.
Proof.
  unfold in_range, int_min, int_max, wrap_int.
  destruct I as [w sg]; simpl.
  assert (Hpow : 2 ^ bits w = 2 * 2 ^ (bits w - 1)) by (by destruct w).
  assert (Hpos : 0 < 2 ^ (bits w - 1)) by (by destruct w).
  destruct sg; simpl; intros Hv.
  - destruct (Z_lt_le_dec v 0) as [Hneg|Hnn].
    + rewrite <- (Z.mod_add v 1) by lia.
      rewrite (Z.mod_small (v + 1 * 2 ^ bits w)) by lia.
      destruct (Z.leb_spec (2 ^ (bits w - 1)) (v + 1 * 2 ^ bits w)); lia.
    + rewrite Z.mod_small by lia.
      destruct (Z.leb_spec (2 ^ (bits w - 1)) v); lia.
  - apply Z.mod_small. lia.
Qed.

Lemma wrap_int_congruent (I : int_ty) (v : Z) :
  wrap_int I v mod 2 ^ bits (width I) = v mod 2 ^ bits (width I).
Proof.
  unfold wrap_int. destruct I as [w sg]; simpl.
  assert (Hpos : 0 < 2 ^ bits w) by (by destruct w).
  destruct (sg && _).
  - replace (v mod 2 ^ bits w - 2 ^ bits w)
      with (v mod 2 ^ bits w + (-1) * 2 ^ bits w) by lia.
    rewrite Z.mod_add by lia. apply Z.mod_mod. lia.
  - apply Z.mod_mod. lia.
Qed.

(** A target narrower than a pointer is rejected. *)
Lemma op_Integral_narrow (T : cty) (I : int_ty) (x : device_ptr T) :
  width I ≠ W64 → op_Integral I x = None.
Proof. destruct I as [[] sg]; simpl; done. Qed.

(** The claim of C8 as stated fails: the address [2^63] converts to the
    signed 64-bit value [-2^63], not to the numeric address. *)
Lemma op_Integral_signed_high_address :
  valid_addr (2 ^ 63)
  ∧ op_Integral int64_t (device_ptr_raw int_t (2 ^ 63)) = Some (- 2 ^ 63)
  ∧ op_Integral int64_t (device_ptr_raw int_t (2 ^ 63))
    ≠ Some (get (device_ptr_raw int_t (2 ^ 63))).
Proof.
  split; [|split].
  - unfold valid_addr, ptr_modulus, ptr_bits. lia.
  - reflexivity.
  - intros Heq. vm_compute in Heq. discriminate Heq.
Qed.

(** C8 (amended): the conversion to a pointer-sized integral type yields the
    value of that type congruent to the wrapped address modulo [2^64]; it is
    the numeric address whenever that is representable in the type, always
    so for an unsigned type, and a null pointer converts to zero. *)
Theorem op_Integral_address (T : cty) (I : int_ty) (x : device_ptr T) :
  width I = W64 →
  valid_addr (get x) →
  (∃ v, op_Integral I x = Some v
        ∧ in_range I v
        ∧ v mod ptr_modulus = get x
        ∧ (in_range I (get x) → v = get x)
        ∧ (signed I = false → v = get x))
  ∧ op_Integral I (device_ptr_null T) = Some 0.
Proof.
  intros Hw Hx. destruct I as [w sg]; simpl in Hw; subst w.
  split; [|by destruct sg].
  exists (wrap_int (IntTy W64 sg) (ptr x)).
  split; [reflexivity|].
  split; [apply wrap_int_in_range|].
  split; [|split].
  - pose proof (wrap_int_congruent (IntTy W64 sg) (ptr x)) as Hc.
    simpl in Hc. unfold ptr_modulus, ptr_bits, get.
    rewrite Hc. by apply Z.mod_small.
  - apply wrap_int_id.
  - simpl. intros ->. apply wrap_int_id.
    unfold valid_addr, ptr_modulus, ptr_bits, get in Hx.
    unfold in_range, int_min, int_max, get; simpl. lia.
Qed.

Lemma op_Integral_address_witness :
  (∃ v, op_Integral int64_t (device_ptr_raw int_t 4096) = Some v
        ∧ in_range int64_t v
        ∧ v mod ptr_modulus = get (device_ptr_raw int_t 4096)
        ∧ (in_range int64_t (get (device_ptr_raw int_t 4096)) →
           v = get (device_ptr_raw int_t 4096))
        ∧ (signed int64_t = false → v = get (device_ptr_raw int_t 4096)))
  ∧ op_Integral int64_t (device_ptr_null int_t) = Some 0.
Proof.
  apply (op_Integral_address int_t int64_t (device_ptr_raw int_t 4096)).
  - reflexivity.
  - unfold valid_addr, ptr_modulus, ptr_bits, get; simpl. lia.
Defined.

(** ** Conversions between instantiations *)

Lemma is_void_member_ty (V : cty) : is_void V = true → member_ty V = void_t.
Proof. unfold member_ty. by intros ->. Qed.

Lemma not_void_member_ty (T : cty) : is_void T = false → member_ty T = T.
Proof. unfold member_ty. by intros ->. Qed.

(** No standard conversion takes a [void*] to an object pointer. *)
Lemma ptr_implicit_from_void (T : cty) :
  is_void T = false → ptr_implicit void_t T = false.
Proof.
  unfold ptr_implicit, is_void. by destruct T as [[|name sz] c].
Qed.

(** Both recovering constructors initialise [T* ptr] from the [void* ptr] of
    the opaque pointer; neither instantiation is well-formed. *)
Lemma recover_rejected (T V : cty) (v : device_ptr V) :
  is_void T = false →
  is_void V = true →
  convert ctor_Void T v = None ∧ convert ctor_const_Void T v = None.
Proof.
  intros HT HV. unfold convert, body_ok.
  rewrite (is_void_member_ty V HV), (not_void_member_ty T HT).
  rewrite (ptr_implicit_from_void T HT).
  by rewrite !andb_false_r.
Qed.

(** Erasing the type of a pointer to non-const keeps the address. *)
Lemma erase_Some (T V : cty) (d : device_ptr T) :
  is_void T = false →
  is_const T = false →
  is_void V = true →
  convert op_device_ptr_Void V d = Some (DevicePtr (ptr d)).
Proof.
  intros HT Hc HV. unfold convert, viable, body_ok, declared_in.
  rewrite (is_void_member_ty V HV), (not_void_member_ty T HT).
  unfold ptr_implicit. rewrite HT, HV, Hc. simpl.
  by rewrite orb_true_r.
Qed.

(** Erasing the type of a pointer to const is rejected: its [const T*] does
    not convert to the [void*] parameter of line 239. *)
Lemma erase_const_rejected (T V : cty) (d : device_ptr T) :
  is_void T = false →
  is_const T = true →
  is_void V = true →
  convert op_device_ptr_Void V d = None.
Proof.
  intros HT Hc HV. unfold convert, body_ok.
  rewrite (is_void_member_ty V HV), (not_void_member_ty T HT).
  unfold ptr_implicit. rewrite Hc. simpl.
  by rewrite !andb_false_r.
Qed.

(** The route through raw pointers: the [static_cast] of lines 283-288
    followed by the explicit constructor of line 62 gives back a pointer
    that compares equal to the erased one. *)
Lemma recover_through_raw (T V : cty) (d : device_ptr T) (v : device_ptr V) :
  convert op_device_ptr_Void V d = Some v →
  op_eq (device_ptr_raw T (op_T_ptr v)) d = true.
Proof.
  unfold convert. destruct (_ && _); [|done].
  intros [= <-]. unfold op_eq; simpl. apply Z.eqb_refl.
Qed.

(** C2: erasing [d], a [device_ptr<int>] at address 4096, succeeds and keeps the
    address, but recovering through the constructor of lines 68-70 is
    rejected, so no pointer comes back to compare with [d]; the address copy
    that the constructor asks for would compare equal to [d]. *)
Theorem erase_then_recover_rejected :
  ∃ v : device_ptr void_t,
    convert op_device_ptr_Void void_t (device_ptr_raw int_t 4096) = Some v
    ∧ get v = get (device_ptr_raw int_t 4096)
    ∧ convert ctor_Void int_t v = None
    ∧ op_eq (convert_value int_t v) (device_ptr_raw int_t 4096) = true.
Proof. by exists (DevicePtr 4096). Qed.

(** The claim of C3 as stated fails in the erasing direction: a
    [device_ptr<int>] converts implicitly to [device_ptr<void>]. *)
Lemma erase_is_implicit :
  explicit op_device_ptr_Void = false
  ∧ implicitly_convertible int_t void_t = true
  ∧ ¬ (implicitly_convertible int_t void_t = false
       ∧ implicitly_convertible void_t int_t = false).
Proof.
  split; [reflexivity|]. split; [reflexivity|].
  intros [Himp _]. vm_compute in Himp. discriminate Himp.
Qed.

(** C3 (amended): an opaque pointer never converts implicitly to a typed
    one, since every member that takes it is declared [explicit]; a typed
    pointer to non-const converts to an opaque one implicitly, through a
    conversion function that is not [explicit] and keeps the address. *)
Theorem typed_opaque_conversions (T V : cty) :
  is_void T = false →
  is_void V = true →
  implicitly_convertible V T = false
  ∧ (∀ m, viable m V T = true → explicit m = true)
  ∧ (∀ (m : member) (v : device_ptr V),
       explicit m = false → convert m T v = None)
  ∧ (is_const T = false →
     explicit op_device_ptr_Void = false
     ∧ implicitly_convertible T V = true
     ∧ ∀ x : device_ptr T,
         ∃ v, convert op_device_ptr_Void V x = Some v ∧ get v = get x).
Proof.
  intros HT HV.
  assert (Hne : V ≠ T) by (intros ->; congruence).
  assert (Hne' : T ≠ V) by congruence.
  assert (Hrc : bool_decide (V = remove_const T) = false).
  { apply bool_decide_eq_false_2. intros ->.
    unfold is_void, remove_const in *; simpl in *. congruence. }
  assert (Hexp : ∀ m, viable m V T = true → explicit m = true).
  { intros m. destruct m; simpl; try done.
    - by rewrite Hrc, andb_false_r.
    - by rewrite HT, andb_false_r. }
  split; [|split; [done|split]].
  - unfold implicitly_convertible.
    rewrite (bool_decide_eq_false_2 _ Hne).
    unfold members, existsb, viable, declared_in, explicit.
    rewrite HT, HV, Hrc. simpl.
    by rewrite ?andb_false_r.
  - intros m v Hm. unfold convert.
    destruct (viable m V T) eqn:Hv; [|done].
    apply Hexp in Hv. congruence.
  - intros Hc. split; [done|]. split.
    + unfold implicitly_convertible.
      rewrite (bool_decide_eq_false_2 _ Hne').
      unfold members, existsb, viable, declared_in, explicit.
      rewrite HT, HV. simpl. by rewrite ?orb_true_r.
    + intros x. exists (DevicePtr (ptr x)).
      split; [by apply erase_Some|reflexivity].
Qed.

Lemma typed_opaque_conversions_witness :
  implicitly_convertible void_t int_t = false
  ∧ (∀ m, viable m void_t int_t = true → explicit m = true)
  ∧ (∀ (m : member) (v : device_ptr void_t),
       explicit m = false → convert m int_t v = None)
  ∧ (is_const int_t = false →
     explicit op_device_ptr_Void = false
     ∧ implicitly_convertible int_t void_t = true
     ∧ ∀ x : device_ptr int_t,
         ∃ v, convert op_device_ptr_Void void_t x = Some v ∧ get v = get x).
Proof.
  apply (typed_opaque_conversions int_t void_t); reflexivity.
Defined.

(** C6: a pointer to non-const [T] converts implicitly to a pointer to
    [const T] with the same wrapped address, and no conversion, implicit or
    explicit, leads from [device_ptr<const T>] back to [device_ptr<T>]. *)
Theorem qualifier_widening (T : cty) (x : device_ptr T) :
  is_void T = false →
  is_const T = false →
  explicit ctor_widen = false
  ∧ implicitly_convertible T (add_const T) = true
  ∧ (∃ y, convert ctor_widen (add_const T) x = Some y ∧ get y = get x)
  ∧ implicitly_convertible (add_const T) T = false
  ∧ explicitly_convertible (add_const T) T = false
  ∧ (∀ (m : member) (c : device_ptr (add_const T)), convert m T c = None).
Proof.
  intros HT Hc. destruct T as [b c]. simpl in Hc; subst c.
  destruct b as [|name sz]; [done|].
  assert (Hv : ∀ m, viable m (add_const (CTy (Obj name sz) false))
                      (CTy (Obj name sz) false) = false)
    by (by intros []).
  split; [reflexivity|].
  split.
  { unfold implicitly_convertible, members, existsb, viable; simpl.
    rewrite (bool_decide_eq_true_2 (_ = remove_const _)) by reflexivity.
    by rewrite orb_true_r. }
  split.
  { exists (DevicePtr (ptr x)). split; [|reflexivity].
    unfold convert, viable, body_ok, ptr_implicit; simpl.
    rewrite (bool_decide_eq_true_2 (_ = remove_const _)) by reflexivity.
    by rewrite (bool_decide_eq_true_2 (Obj name sz = Obj name sz)). }
  split; [|split].
  - unfold implicitly_convertible, members, existsb.
    rewrite !Hv. by rewrite bool_decide_eq_false_2.
  - unfold explicitly_convertible, members, existsb.
    rewrite !Hv. by rewrite bool_decide_eq_false_2.
  - intros m c. unfold convert. by rewrite Hv.
Qed.

Lemma qualifier_widening_witness :
  explicit ctor_widen = false
  ∧ implicitly_convertible int_t (add_const int_t) = true
  ∧ (∃ y, convert ctor_widen (add_const int_t) (device_ptr_raw int_t 4096)
          = Some y
          ∧ get y = get (device_ptr_raw int_t 4096))
  ∧ implicitly_convertible (add_const int_t) int_t = false
  ∧ explicitly_convertible (add_const int_t) int_t = false
  ∧ (∀ (m : member) (c : device_ptr (add_const int_t)),
       convert m int_t c = None).
Proof.
  apply (qualifier_widening int_t (device_ptr_raw int_t 4096)); reflexivity.
Defined.

(** * Further properties of the header *)

(** ** Compound assignment and increments *)

(** A local object next to a body that also writes elsewhere. *)
Lemma with_local_frame {A : Type} (s s' : store) (p q : Z) (a : A)
    (body : loc → M A) :
  (∀ l, s !! l = None →
        body l (<[l := p]> s) = Some (a, <[l := q]> s') ∧ s' !! l = None) →
  with_local p body s = Some (a, s').
Proof.
  intros Hbody. unfold with_local.
  destruct (Hbody _ (fresh_unallocated s)) as [-> Hfree].
  by rewrite delete_insert_id.
Qed.

Lemma raw_add_raw_add T p n m :
  raw_add T (raw_add T p n) m = raw_add T p (n + m).
Proof.
  unfold raw_add. rewrite Zplus_mod_idemp_l. f_equal. lia.
Qed.

Lemma raw_add_raw_sub T p n :
  valid_addr p → raw_add T (raw_sub T p n) n = p.
Proof.
  intros Hp. unfold raw_sub, raw_add.
  rewrite Zplus_mod_idemp_l.
  replace (p - n * sizeof T + n * sizeof T) with p by lia.
  by apply Z.mod_small.
Qed.

Lemma raw_sub_as_add T p n : raw_sub T p n = raw_add T p (- n).
Proof. unfold raw_sub, raw_add. f_equal. lia. Qed.

Lemma raw_add_0 T p : valid_addr p → raw_add T p 0 = p.
Proof.
  intros Hp. unfold raw_add. rewrite Z.mul_0_l, Z.add_0_r.
  by apply Z.mod_small.
Qed.

Lemma op_pre_inc_Some T (s : store) this p :
  s !! this = Some p →
  op_pre_inc T this s = Some (this, <[this := raw_add T p 1]> s).
Proof.
  intros Hp. unfold op_pre_inc, bind, ret.
  by rewrite (read_ptr_Some _ _ _ Hp), (assign_ptr_Some _ _ _ _ Hp).
Qed.

Lemma op_pre_dec_Some T (s : store) this p :
  s !! this = Some p →
  op_pre_dec T this s = Some (this, <[this := raw_sub T p 1]> s).
Proof.
  intros Hp. unfold op_pre_dec, bind, ret.
  by rewrite (read_ptr_Some _ _ _ Hp), (assign_ptr_Some _ _ _ _ Hp).
Qed.

Lemma op_post_inc_Some T (s : store) this p :
  s !! this = Some p →
  op_post_inc T this s = Some (DevicePtr p, <[this := raw_add T p 1]> s).
Proof.
  intros Hp. unfold op_post_inc, bind at 1.
  rewrite (read_ptr_Some _ _ _ Hp).
  apply with_local_frame with (q := p).
  intros l Hl.
  assert (Hne : l ≠ this) by congruence.
  assert (Hp' : <[l := p]> s !! this = Some p) by by rewrite lookup_insert_ne.
  split; [|by rewrite lookup_insert_ne].
  unfold bind, ret.
  rewrite (read_ptr_Some _ _ _ Hp'), (assign_ptr_Some _ _ _ _ Hp').
  rewrite (read_ptr_Some _ l p)
    by (rewrite lookup_insert_ne by done; apply lookup_insert_eq).
  by rewrite insert_insert_ne.
Qed.

Lemma op_post_dec_Some T (s : store) this p :
  s !! this = Some p →
  op_post_dec T this s = Some (DevicePtr p, <[this := raw_sub T p 1]> s).
Proof.
  intros Hp. unfold op_post_dec, bind at 1.
  rewrite (read_ptr_Some _ _ _ Hp).
  apply with_local_frame with (q := p).
  intros l Hl.
  assert (Hne : l ≠ this) by congruence.
  assert (Hp' : <[l := p]> s !! this = Some p) by by rewrite lookup_insert_ne.
  split; [|by rewrite lookup_insert_ne].
  unfold bind, ret.
  rewrite (read_ptr_Some _ _ _ Hp'), (assign_ptr_Some _ _ _ _ Hp').
  rewrite (read_ptr_Some _ l p)
    by (rewrite lookup_insert_ne by done; apply lookup_insert_eq).
  by rewrite insert_insert_ne.
Qed.

(** X1: [x++] returns the value [x] held before the call and leaves [x] one
    element further; [++x] returns [x] itself, one element further; both
    leave the store that [x += 1] leaves. *)
Theorem increment_post_pre (T : cty) (s : store) (x : loc) (p : Z) :
  s !! x = Some p →
  ∃ s1 : store,
    op_plus_assign T x 1 s = Some (x, s1)
    ∧ op_post_inc T x s = Some (DevicePtr p, s1)
    ∧ op_pre_inc T x s = Some (x, s1)
    ∧ s1 !! x = Some (raw_add T p 1)
    ∧ ∀ l, l ≠ x → s1 !! l = s !! l.
Proof.
  intros Hx. exists (<[x := raw_add T p 1]> s).
  rewrite (op_plus_assign_Some T s x 1 p Hx), (op_post_inc_Some T s x p Hx),
    (op_pre_inc_Some T s x p Hx).
  repeat split; [apply lookup_insert_eq|].
  intros l Hl. by rewrite lookup_insert_ne.
Qed.

Lemma increment_post_pre_witness :
  ∃ s1 : store,
    op_plus_assign int_t 2%positive 1 two_objects = Some (2%positive, s1)
    ∧ op_post_inc int_t 2%positive two_objects = Some (DevicePtr 4096, s1)
    ∧ op_pre_inc int_t 2%positive two_objects = Some (2%positive, s1)
    ∧ s1 !! 2%positive = Some (raw_add int_t 4096 1)
    ∧ ∀ l, l ≠ 2%positive → s1 !! l = two_objects !! l.
Proof.
  apply (increment_post_pre int_t two_objects 2%positive 4096). reflexivity.
Defined.

(** X2: [x--] returns the value [x] held before the call and leaves [x] one
    element back; [--x] returns [x] itself, one element back; both leave
    the store that [x -= 1] leaves. *)
Theorem decrement_post_pre (T : cty) (s : store) (x : loc) (p : Z) :
  s !! x = Some p →
  ∃ s1 : store,
    op_minus_assign T x 1 s = Some (x, s1)
    ∧ op_post_dec T x s = Some (DevicePtr p, s1)
    ∧ op_pre_dec T x s = Some (x, s1)
    ∧ s1 !! x = Some (raw_sub T p 1)
    ∧ ∀ l, l ≠ x → s1 !! l = s !! l.
Proof.
  intros Hx. exists (<[x := raw_sub T p 1]> s).
  rewrite (op_minus_assign_Some T s x 1 p Hx), (op_post_dec_Some T s x p Hx),
    (op_pre_dec_Some T s x p Hx).
  repeat split; [apply lookup_insert_eq|].
  intros l Hl. by rewrite lookup_insert_ne.
Qed.

Lemma decrement_post_pre_witness :
  ∃ s1 : store,
    op_minus_assign int_t 2%positive 1 two_objects = Some (2%positive, s1)
    ∧ op_post_dec int_t 2%positive two_objects = Some (DevicePtr 4096, s1)
    ∧ op_pre_dec int_t 2%positive two_objects = Some (2%positive, s1)
    ∧ s1 !! 2%positive = Some (raw_sub int_t 4096 1)
    ∧ ∀ l, l ≠ 2%positive → s1 !! l = two_objects !! l.
Proof.
  apply (decrement_post_pre int_t two_objects 2%positive 4096). reflexivity.
Defined.

(** X3: [(x += n) -= n], the second operator applied to the reference the
    first returns, gives [x] back and restores the whole store; so does
    [--(++x)]. *)
Theorem add_then_subtract_restores (T : cty) (s : store) (x : loc) (p n : Z) :
  s !! x = Some p →
  valid_addr p →
  bind (op_plus_assign T x n) (λ r, op_minus_assign T r n) s = Some (x, s)
  ∧ bind (op_pre_inc T x) (λ r, op_pre_dec T r) s = Some (x, s).
Proof.
  intros Hx Hp. unfold bind.
  rewrite (op_plus_assign_Some T s x n p Hx), (op_pre_inc_Some T s x p Hx).
  rewrite (op_minus_assign_Some T _ x n (raw_add T p n))
    by apply lookup_insert_eq.
  rewrite (op_pre_dec_Some T _ x (raw_add T p 1)) by apply lookup_insert_eq.
  rewrite !insert_insert_eq, !raw_sub_raw_add by done.
  by rewrite insert_id.
Qed.

Lemma add_then_subtract_restores_witness :
  bind (op_plus_assign int_t 2%positive 3)
       (λ r, op_minus_assign int_t r 3) two_objects
  = Some (2%positive, two_objects)
  ∧ bind (op_pre_inc int_t 2%positive) (λ r, op_pre_dec int_t r) two_objects
    = Some (2%positive, two_objects).
Proof.
  apply (add_then_subtract_restores int_t two_objects 2%positive 4096 3).
  - reflexivity.
  - unfold valid_addr, ptr_modulus, ptr_bits. lia.
Defined.

(** X4: [(x += n) += m] has the effect and the result of [x += n + m]. *)
Theorem plus_assign_chain (T : cty) (s : store) (x : loc) (p n m : Z) :
  s !! x = Some p →
  bind (op_plus_assign T x n) (λ r, op_plus_assign T r m) s
  = op_plus_assign T x (n + m) s
  ∧ ∃ s1 : store,
      op_plus_assign T x (n + m) s = Some (x, s1)
      ∧ s1 !! x = Some (raw_add T p (n + m)).
Proof.
  intros Hx. unfold bind.
  rewrite (op_plus_assign_Some T s x n p Hx).
  rewrite (op_plus_assign_Some T _ x m (raw_add T p n))
    by apply lookup_insert_eq.
  rewrite (op_plus_assign_Some T s x (n + m) p Hx).
  rewrite insert_insert_eq, raw_add_raw_add.
  split; [done|]. eexists. split; [done|]. apply lookup_insert_eq.
Qed.

Lemma plus_assign_chain_witness :
  bind (op_plus_assign int_t 2%positive 3)
       (λ r, op_plus_assign int_t r 5) two_objects
  = op_plus_assign int_t 2%positive (3 + 5) two_objects
  ∧ ∃ s1 : store,
      op_plus_assign int_t 2%positive (3 + 5) two_objects
      = Some (2%positive, s1)
      ∧ s1 !! 2%positive = Some (raw_add int_t 4096 (3 + 5)).
Proof.
  apply (plus_assign_chain int_t two_objects 2%positive 4096 3 5).
  reflexivity.
Defined.

(** X5: the value [x + n] returns is the value [x += n] leaves in [x], and
    [x - (-n)] returns the same value. *)
Theorem plus_agrees_with_plus_assign (T : cty) (s : store) (x : loc)
    (p n : Z) :
  s !! x = Some p →
  ∃ (y : device_ptr T) (s1 : store),
    op_plus T x n s = Some (y, s)
    ∧ op_plus_assign T x n s = Some (x, s1)
    ∧ s1 !! x = Some (get y)
    ∧ op_minus T x (- n) s = Some (y, s).
Proof.
  intros Hx.
  exists (DevicePtr (raw_add T p n)), (<[x := raw_add T p n]> s).
  rewrite (op_plus_Some T s x n p Hx), (op_plus_assign_Some T s x n p Hx),
    (op_minus_Some T s x (- n) p Hx).
  rewrite raw_sub_as_add, Z.opp_involutive.
  repeat split. apply lookup_insert_eq.
Qed.

Lemma plus_agrees_with_plus_assign_witness :
  ∃ (y : device_ptr int_t) (s1 : store),
    op_plus int_t 2%positive 3 two_objects = Some (y, two_objects)
    ∧ op_plus_assign int_t 2%positive 3 two_objects = Some (2%positive, s1)
    ∧ s1 !! 2%positive = Some (get y)
    ∧ op_minus int_t 2%positive (- 3) two_objects = Some (y, two_objects).
Proof.
  apply (plus_agrees_with_plus_assign int_t two_objects 2%positive 4096 3).
  reflexivity.
Defined.

Lemma sizeof_pos (T : cty) : 0 < sizeof T.
Proof. unfold sizeof. destruct (base T); lia. Qed.

(** X6: as long as [x + n] stays inside the address space, it is ordered
    against [x] as [n] is against zero: [x < x + n] exactly when [n] is
    positive, [x + n < x] exactly when [n] is negative, and [x + n == x]
    exactly when [n] is zero. *)
Theorem plus_order (T : cty) (s : store) (x : loc) (p n : Z) :
  s !! x = Some p →
  0 <= p + n * sizeof T < ptr_modulus →
  ∃ y : device_ptr T,
    op_plus T x n s = Some (y, s)
    ∧ (op_lt (DevicePtr p) y = true ↔ 0 < n)
    ∧ (op_lt y (DevicePtr p) = true ↔ n < 0)
    ∧ (op_eq y (DevicePtr p) = true ↔ n = 0).
Proof.
  intros Hx Hn. pose proof (sizeof_pos T) as Hsz.
  exists (DevicePtr (raw_add T p n)).
  rewrite (op_plus_Some T s x n p Hx).
  split; [done|].
  unfold op_eq, op_lt, raw_add; simpl.
  rewrite Z.mod_small by done.
  rewrite !Z.ltb_lt, Z.eqb_eq. nia.
Qed.

Lemma plus_order_witness :
  ∃ y : device_ptr int_t,
    op_plus int_t 2%positive (-3) two_objects = Some (y, two_objects)
    ∧ (op_lt (DevicePtr 4096) y = true ↔ 0 < -3)
    ∧ (op_lt y (DevicePtr 4096) = true ↔ -3 < 0)
    ∧ (op_eq y (DevicePtr 4096) = true ↔ -3 = 0).
Proof.
  apply (plus_order int_t two_objects 2%positive 4096 (-3)).
  - reflexivity.
  - unfold ptr_modulus, ptr_bits, int_t, sizeof; simpl. lia.
Defined.

(** ** Pointer difference *)

Lemma wrap_int_mod (I : int_ty) (a b : Z) :
  a mod 2 ^ bits (width I) = b mod 2 ^ bits (width I) →
  wrap_int I a = wrap_int I b.
Proof. unfold wrap_int. by intros ->. Qed.

Lemma raw_diff_raw_add (T : cty) (p n : Z) :
  in_range ptrdiff_t (n * sizeof T) →
  raw_diff T (raw_add T p n) p = n.
Proof.
  intros Hn. pose proof (sizeof_pos T) as Hsz. unfold raw_diff.
  assert (Hbytes : wrap_int ptrdiff_t (raw_add T p n - p) = n * sizeof T).
  { rewrite <- (wrap_int_id ptrdiff_t (n * sizeof T)) by done.
    apply wrap_int_mod. simpl. unfold raw_add, ptr_modulus, ptr_bits.
    rewrite Zminus_mod_idemp_l. f_equal. lia. }
  rewrite Hbytes. apply Z.quot_mul. lia.
Qed.

(** The difference of two elements of one array: the byte distance is a
    multiple of the element size and fits [std::ptrdiff_t]. *)
Lemma raw_diff_exact (T : cty) (p q k : Z) :
  p - q = k * sizeof T →
  in_range ptrdiff_t (p - q) →
  raw_diff T p q = k.
Proof.
  intros Hk Hr. pose proof (sizeof_pos T) as Hsz. unfold raw_diff.
  rewrite wrap_int_id by done. rewrite Hk. apply Z.quot_mul. lia.
Qed.

(** X7: the difference undoes the addition: [(x + n) - x] is [n] for every
    offset whose byte distance [n * sizeof(T)] fits [std::ptrdiff_t]. *)
Theorem diff_of_plus (T : cty) (s : store) (x : loc) (p n : Z) :
  s !! x = Some p →
  in_range ptrdiff_t (n * sizeof T) →
  ∃ y : device_ptr T,
    op_plus T x n s = Some (y, s)
    ∧ op_diff y (DevicePtr p) = n.
Proof.
  intros Hx Hn. exists (DevicePtr (raw_add T p n)).
  split; [by apply op_plus_Some|].
  unfold op_diff; simpl. by apply raw_diff_raw_add.
Qed.

Lemma diff_of_plus_witness :
  ∃ y : device_ptr int_t,
    op_plus int_t 2%positive (-3) two_objects = Some (y, two_objects)
    ∧ op_diff y (DevicePtr 4096) = -3.
Proof.
  apply (diff_of_plus int_t two_objects 2%positive 4096 (-3)).
  - reflexivity.
  - unfold in_range, int_min, int_max, ptrdiff_t, int_t, sizeof; simpl. lia.
Defined.

(** X8: for two elements of one array, that is, two pointers whose byte
    distance is [k] whole elements and fits [std::ptrdiff_t], [x - y] is
    [k]; it is zero exactly when [x == y] and positive exactly when
    [y < x]. *)
Theorem diff_zero_iff_equal (T : cty) (x y : device_ptr T) (k : Z) :
  get x - get y = k * sizeof T →
  in_range ptrdiff_t (get x - get y) →
  op_diff x y = k
  ∧ (op_diff x y = 0 ↔ op_eq x y = true)
  ∧ (0 < op_diff x y ↔ op_lt y x = true).
Proof.
  intros Hk Hr. pose proof (sizeof_pos T) as Hsz.
  unfold op_diff, op_eq, op_lt, get in *.
  rewrite (raw_diff_exact T _ _ k Hk Hr).
  rewrite Z.eqb_eq, Z.ltb_lt.
  split; [done|]. split; nia.
Qed.

Lemma diff_zero_iff_equal_witness :
  op_diff (device_ptr_raw int_t 4108) (device_ptr_raw int_t 4096) = 3
  ∧ (op_diff (device_ptr_raw int_t 4108) (device_ptr_raw int_t 4096) = 0
     ↔ op_eq (device_ptr_raw int_t 4108) (device_ptr_raw int_t 4096) = true)
  ∧ (0 < op_diff (device_ptr_raw int_t 4108) (device_ptr_raw int_t 4096)
     ↔ op_lt (device_ptr_raw int_t 4096) (device_ptr_raw int_t 4108) = true).
Proof.
  apply (diff_zero_iff_equal int_t (device_ptr_raw int_t 4108)
           (device_ptr_raw int_t 4096) 3).
  - reflexivity.
  - unfold in_range, int_min, int_max, ptrdiff_t, get; simpl. lia.
Defined.

(** ** Access *)

(** X9: [x[n]] designates the object that [*(x + n)] designates, [x[0]] is
    [*x], and [operator->] returns the address [get] returns. *)
Theorem index_is_deref_of_plus (T : cty) (s : store) (x : loc) (p n : Z) :
  s !! x = Some p →
  valid_addr p →
  ∃ y : device_ptr T,
    op_plus T x n s = Some (y, s)
    ∧ op_index (DevicePtr p : device_ptr T) n = op_deref y
    ∧ op_index (DevicePtr p : device_ptr T) 0
      = op_deref (DevicePtr p : device_ptr T)
    ∧ op_arrow y = get y.
Proof.
  intros Hx Hp. exists (DevicePtr (raw_add T p n)).
  split; [by apply op_plus_Some|].
  unfold op_index, op_deref, op_arrow, get; simpl.
  by rewrite raw_add_0.
Qed.

Lemma index_is_deref_of_plus_witness :
  ∃ y : device_ptr int_t,
    op_plus int_t 2%positive 3 two_objects = Some (y, two_objects)
    ∧ op_index (DevicePtr 4096 : device_ptr int_t) 3 = op_deref y
    ∧ op_index (DevicePtr 4096 : device_ptr int_t) 0
      = op_deref (DevicePtr 4096 : device_ptr int_t)
    ∧ op_arrow y = get y.
Proof.
  apply (index_is_deref_of_plus int_t two_objects 2%positive 4096 3).
  - reflexivity.
  - unfold valid_addr, ptr_modulus, ptr_bits. lia.
Defined.

(** ** The comparison operators among themselves *)

(** X10: the six operators are determined by [<] and [==]: [!=] negates
    [==], [>] and [>=] are [<] and [<=] with the operands exchanged, [<=] is
    [<] or [==], and [>=] negates [<]. *)
Theorem comparison_operators_related (T : cty) (x y : device_ptr T) :
  op_ne x y = negb (op_eq x y)
  ∧ op_gt x y = op_lt y x
  ∧ op_ge x y = op_le y x
  ∧ op_le x y = op_lt x y || op_eq x y
  ∧ op_ge x y = negb (op_lt x y)
  ∧ op_eq x y = op_eq y x.
Proof.
  unfold op_lt, op_eq, op_ne, op_le, op_gt, op_ge.
  rewrite Z.gtb_ltb, Z.geb_leb.
  repeat split; compare_addresses.
Qed.

(** X11: [<] is irreflexive and transitive, [<=] is reflexive and
    transitive, two pointers below or equal to each other compare equal,
    and pointers that compare equal hold the same address. *)
Theorem comparison_is_an_order (T : cty) (x y z : device_ptr T) :
  op_lt x x = false
  ∧ (op_lt x y = true → op_lt y z = true → op_lt x z = true)
  ∧ op_le x x = true
  ∧ (op_le x y = true → op_le y z = true → op_le x z = true)
  ∧ (op_le x y = true → op_le y x = true → op_eq x y = true)
  ∧ (op_eq x y = true → x = y).
Proof.
  destruct x as [p], y as [q], z as [r].
  unfold op_lt, op_eq, op_le; simpl.
  split; [apply Z.ltb_irrefl|].
  split; [intros; compare_addresses|].
  split; [apply Z.leb_refl|].
  split; [intros; compare_addresses|].
  split; [intros; compare_addresses|].
  intros Heq. f_equal. by apply Z.eqb_eq.
Qed.

(** ** Null, [bool] and integral values *)

(** X12: a pointer converts to [true] exactly when it differs from the
    pointer built from the null token, and, holding a 64-bit address, to
    [false] exactly when it converts to the integer zero of a 64-bit type. *)
Theorem op_bool_null_zero (T : cty) (I : int_ty) (x : device_ptr T) :
  width I = W64 →
  valid_addr (get x) →
  op_bool x = op_ne x (device_ptr_null T)
  ∧ (op_bool x = false ↔ op_eq x (device_ptr_null T) = true)
  ∧ (op_bool x = false ↔ op_Integral I x = Some 0).
Proof.
  intros Hw Hx. unfold op_bool, op_ne, op_eq; simpl.
  split; [done|]. split; [by rewrite negb_false_iff|].
  rewrite negb_false_iff, Z.eqb_eq.
  destruct I as [w sg]; simpl in Hw; subst w.
  unfold op_Integral, cast_ptr_to_int; simpl.
  unfold valid_addr, ptr_modulus, ptr_bits, get in Hx.
  split.
  - intros ->. by destruct sg.
  - intros [= Hz].
    pose proof (wrap_int_congruent (IntTy W64 sg) (ptr x)) as Hc.
    rewrite Hz in Hc. simpl in Hc.
    rewrite (Z.mod_small (ptr x)) in Hc by done.
    by rewrite <- Hc.
Qed.

Lemma op_bool_null_zero_witness :
  op_bool (device_ptr_raw int_t 4096)
  = op_ne (device_ptr_raw int_t 4096) (device_ptr_null int_t)
  ∧ (op_bool (device_ptr_raw int_t 4096) = false
     ↔ op_eq (device_ptr_raw int_t 4096) (device_ptr_null int_t) = true)
  ∧ (op_bool (device_ptr_raw int_t 4096) = false
     ↔ op_Integral int64_t (device_ptr_raw int_t 4096) = Some 0).
Proof.
  apply (op_bool_null_zero int_t int64_t (device_ptr_raw int_t 4096)).
  - reflexivity.
  - unfold valid_addr, ptr_modulus, ptr_bits, get; simpl. lia.
Defined.

(** X13: on pointers holding 64-bit addresses the conversion to a 64-bit
    integral type loses nothing: two pointers that convert to the same
    integer compare equal. *)
Theorem op_Integral_injective (T : cty) (I : int_ty) (x y : device_ptr T) :
  width I = W64 →
  valid_addr (get x) →
  valid_addr (get y) →
  op_Integral I x = op_Integral I y →
  op_eq x y = true.
Proof.
  intros Hw Hx Hy. destruct I as [w sg]; simpl in Hw; subst w.
  unfold op_Integral, cast_ptr_to_int, op_eq; simpl.
  intros [= Heq]. apply Z.eqb_eq.
  unfold valid_addr, ptr_modulus, ptr_bits, get in Hx, Hy.
  pose proof (wrap_int_congruent (IntTy W64 sg) (ptr x)) as Hcx.
  pose proof (wrap_int_congruent (IntTy W64 sg) (ptr y)) as Hcy.
  rewrite Heq, Hcy in Hcx. simpl in Hcx.
  by rewrite !Z.mod_small in Hcx.
Qed.

Lemma op_Integral_injective_witness :
  op_eq (device_ptr_raw int_t 4096) (device_ptr_raw int_t 4096) = true.
Proof.
  apply (op_Integral_injective int_t int64_t
           (device_ptr_raw int_t 4096) (device_ptr_raw int_t 4096)).
  - reflexivity.
  - unfold valid_addr, ptr_modulus, ptr_bits, get; simpl. lia.
  - unfold valid_addr, ptr_modulus, ptr_bits, get; simpl. lia.
  - reflexivity.
Defined.

(** ** Conversions between instantiations, as a whole *)

Lemma add_const_of_remove_const (S D : cty) :
  is_const D = true → S = remove_const D → D = add_const S.
Proof. destruct D as [b c]; simpl. by intros -> ->. Qed.

(** X14: converting between instantiations compiles in exactly two cases,
    widening a pointer to non-const [T] to a pointer to [const T] and
    erasing the type of a pointer to non-const [T]; the result holds the
    address of the argument. *)
Theorem convert_characterised (m : member) (S D : cty)
    (x : device_ptr S) (y : device_ptr D) :
  convert m D x = Some y ↔
  get y = get x
  ∧ is_void S = false
  ∧ is_const S = false
  ∧ (m = ctor_widen ∧ D = add_const S
     ∨ m = op_device_ptr_Void ∧ is_void D = true).
Proof.
  destruct y as [q]. unfold convert, convert_value, get; simpl.
  split.
  - destruct (viable m S D && body_ok m S D) eqn:Hok; [|done].
    intros [= <-]. split; [done|].
    apply andb_true_iff in Hok as [Hv Hb].
    destruct m; simpl in Hv, Hb; try done.
    + apply andb_true_iff in Hv as [Hv HS].
      apply andb_true_iff in Hv as [HD Hc].
      apply bool_decide_eq_true_1 in HS. apply negb_true_iff in HD.
      assert (HD' : D = add_const S) by by apply add_const_of_remove_const.
      subst S. by repeat split; [|left].
    + apply andb_true_iff in Hv as [HD HS]. apply negb_true_iff in HD.
      rewrite (is_void_member_ty S HS), (not_void_member_ty D HD) in Hb.
      by rewrite (ptr_implicit_from_void D HD) in Hb.
    + apply andb_true_iff in Hv as [Hv HS].
      apply andb_true_iff in Hv as [HD Hc]. apply negb_true_iff in HD.
      assert (HS' : is_void S = true) by done.
      rewrite (is_void_member_ty S HS'), (not_void_member_ty D HD) in Hb.
      by rewrite (ptr_implicit_from_void D HD) in Hb.
    + apply andb_true_iff in Hv as [HS HD]. apply negb_true_iff in HS.
      rewrite (is_void_member_ty D HD), (not_void_member_ty S HS) in Hb.
      unfold ptr_implicit in Hb. apply andb_true_iff in Hb as [_ Hb].
      destruct (is_const S); [done|]. by repeat split; [|right].
  - intros (-> & HS & Hc & [[-> ->]|[-> HD]]).
    + assert (Hv : is_void (add_const S) = false) by done.
      unfold viable, body_ok, declared_in.
      rewrite Hv, (not_void_member_ty S HS), (not_void_member_ty _ Hv).
      unfold ptr_implicit; simpl. rewrite Hc; simpl.
      rewrite (bool_decide_eq_true_2 (base S = base S)) by done.
      rewrite bool_decide_eq_true_2; [done|].
      destruct S as [b c]; simpl in *. by subst c.
    + unfold viable, body_ok, declared_in.
      rewrite HS, HD, (is_void_member_ty D HD), (not_void_member_ty S HS).
      unfold ptr_implicit; simpl. rewrite Hc; simpl.
      by rewrite orb_true_r.
Qed.

(** X15: a conversion between instantiations keeps equality and order:
    the converted pointers compare as the originals do. *)
Theorem convert_preserves_comparison (m : member) (S D : cty)
    (x y : device_ptr S) (x' y' : device_ptr D) :
  convert m D x = Some x' →
  convert m D y = Some y' →
  op_eq x' y' = op_eq x y
  ∧ op_lt x' y' = op_lt x y
  ∧ op_le x' y' = op_le x y.
Proof.
  unfold convert. destruct (viable m S D && body_ok m S D); [|done].
  by intros [= <-] [= <-].
Qed.

Lemma convert_preserves_comparison_witness :
  op_eq (DevicePtr 8 : device_ptr void_t) (DevicePtr 4096)
  = op_eq (device_ptr_raw int_t 8) (device_ptr_raw int_t 4096)
  ∧ op_lt (DevicePtr 8 : device_ptr void_t) (DevicePtr 4096)
    = op_lt (device_ptr_raw int_t 8) (device_ptr_raw int_t 4096)
  ∧ op_le (DevicePtr 8 : device_ptr void_t) (DevicePtr 4096)
    = op_le (device_ptr_raw int_t 8) (device_ptr_raw int_t 4096).
Proof.
  apply (convert_preserves_comparison op_device_ptr_Void int_t void_t);
    reflexivity.
Defined.

(** X16: between two different typed instantiations nothing converts, by
    any member, when the element types differ or when [const] would be
    dropped. *)
Theorem no_reinterpretation (S D : cty) :
  is_void S = false →
  is_void D = false →
  base S ≠ base D ∨ (is_const S = true ∧ is_const D = false) →
  implicitly_convertible S D = false
  ∧ explicitly_convertible S D = false
  ∧ ∀ (m : member) (x : device_ptr S), convert m D x = None.
Proof.
  intros HS HD Hdiff.
  assert (Hne : S ≠ D).
  { intros ->. destruct Hdiff as [?|[? ?]]; congruence. }
  assert (Hv : ∀ m, viable m S D = false).
  { intros m. destruct m; simpl; try done.
    - apply andb_false_iff.
      destruct (bool_decide (S = remove_const D)) eqn:Heq; [|by right].
      apply bool_decide_eq_true_1 in Heq. left. apply andb_false_iff. right.
      destruct Hdiff as [Hb|[Hc Hc']]; [|done].
      subst S. by destruct Hb.
    - by rewrite HS, andb_false_r.
    - assert (is_void (remove_const S) = false) as -> by done.
      by rewrite andb_false_r.
    - by rewrite HD, andb_false_r. }
  unfold implicitly_convertible, explicitly_convertible, members, existsb,
    convert.
  rewrite !Hv, (bool_decide_eq_false_2 _ Hne). simpl.
  split; [done|]. split; [done|]. intros m x. by rewrite Hv.
Qed.

Lemma no_reinterpretation_witness :
  implicitly_convertible int_t (CTy (Obj "float" 4) false) = false
  ∧ explicitly_convertible int_t (CTy (Obj "float" 4) false) = false
  ∧ ∀ (m : member) (x : device_ptr int_t),
      convert m (CTy (Obj "float" 4) false) x = None.
Proof.
  apply (no_reinterpretation int_t (CTy (Obj "float" 4) false)).
  - reflexivity.
  - reflexivity.
  - left. simpl. discriminate.
Defined.

(** X17: the conversion to [const void*] always yields the wrapped address;
    the conversion to [void*] yields it unless the pointee is a const
    object type, for which it is rejected. *)
Theorem raw_void_conversions (T : cty) (x : device_ptr T) :
  op_const_void_ptr x = Some (get x)
  ∧ op_void_ptr x
    = (if negb (is_void T) && is_const T then None else Some (get x)).
Proof.
  unfold op_const_void_ptr, op_void_ptr, member_ty, ptr_implicit, is_void, get.
  destruct T as [[|name sz] [|]]; simpl; by rewrite ?orb_true_r.
Qed.

(** ** Swap, composed *)

(** X18: swapping twice restores the store, [swap(a, b)] and [swap(b, a)]
    leave the same store, and swapping an object with itself changes
    nothing. *)
Theorem swap_involutive_symmetric (s : store) (a b : loc) (pa pb : Z) :
  s !! a = Some pa →
  s !! b = Some pb →
  bind (swap a b) (λ _, swap a b) s = Some (tt, s)
  ∧ swap a b s = swap b a s
  ∧ swap a a s = Some (tt, s).
Proof.
  intros Ha Hb. unfold swap, bind.
  rewrite (std_swap_Some s a b pa pb Ha Hb), (std_swap_Some s b a pb pa Hb Ha),
    (std_swap_Some s a a pa pa Ha Ha).
  assert (Ha1 : <[b := pa]> (<[a := pb]> s) !! a = Some pb).
  { destruct (decide (a = b)) as [->|Hne].
    - rewrite lookup_insert_eq. congruence.
    - rewrite lookup_insert_ne by done. apply lookup_insert_eq. }
  assert (Hb1 : <[b := pa]> (<[a := pb]> s) !! b = Some pa)
    by apply lookup_insert_eq.
  rewrite (std_swap_Some _ a b pb pa Ha1 Hb1).
  split; [|split]; f_equal; f_equal; apply map_eq; intros l;
    rewrite !lookup_insert; repeat case_decide; congruence.
Qed.

Lemma swap_involutive_symmetric_witness :
  bind (swap 1%positive 2%positive) (λ _, swap 1%positive 2%positive)
       two_objects
  = Some (tt, two_objects)
  ∧ swap 1%positive 2%positive two_objects
    = swap 2%positive 1%positive two_objects
  ∧ swap 1%positive 1%positive two_objects = Some (tt, two_objects).
Proof.
  apply (swap_involutive_symmetric two_objects 1%positive 2%positive 8 4096);
    reflexivity.
Defined.

(** X19: swapping [a] and [b] and then advancing [a] by [n] leaves in [a]
    the value [b + n] had before the swap, and leaves in [b] the old value
    of [a]; for distinct objects the operations do not interfere. *)
Theorem swap_then_advance (T : cty) (s : store) (a b : loc) (pa pb n : Z) :
  a ≠ b →
  s !! a = Some pa →
  s !! b = Some pb →
  ∃ (y : device_ptr T) (s' : store),
    op_plus T b n s = Some (y, s)
    ∧ bind (swap a b) (λ _, op_plus_assign T a n) s = Some (a, s')
    ∧ s' !! a = Some (get y)
    ∧ s' !! b = Some pa.
Proof.
  intros Hne Ha Hb.
  exists (DevicePtr (raw_add T pb n)).
  exists (<[a := raw_add T pb n]> (<[b := pa]> (<[a := pb]> s))).
  split; [by apply op_plus_Some|].
  unfold swap, bind. rewrite (std_swap_Some s a b pa pb Ha Hb).
  rewrite (op_plus_assign_Some T _ a n pb)
    by (rewrite lookup_insert_ne by done; apply lookup_insert_eq).
  split; [done|]. split; [apply lookup_insert_eq|].
  rewrite lookup_insert_ne by done. apply lookup_insert_eq.
Qed.

Lemma swap_then_advance_witness :
  ∃ (y : device_ptr int_t) (s' : store),
    op_plus int_t 2%positive 3 two_objects = Some (y, two_objects)
    ∧ bind (swap 1%positive 2%positive)
           (λ _, op_plus_assign int_t 1%positive 3) two_objects
      = Some (1%positive, s')
    ∧ s' !! 1%positive = Some (get y)
    ∧ s' !! 2%positive = Some 8.
Proof.
  apply (swap_then_advance int_t two_objects 1%positive 2%positive 8 4096 3).
  - discriminate.
  - reflexivity.
  - reflexivity.
Defined.

(** ** The round trip through raw pointers *)

(** X20: the round trip that compiles: a pointer to non-const [T], erased
    to an opaque pointer, cast back with the [static_cast] conversion of
    the specialisation and wrapped again by the explicit constructor,
    compares equal to the original; so does the pointer rebuilt from
    [get]. *)
Theorem erase_recover_through_raw (T V : cty) (d : device_ptr T) :
  is_void T = false →
  is_const T = false →
  is_void V = true →
  ∃ v : device_ptr V,
    convert op_device_ptr_Void V d = Some v
    ∧ op_eq (device_ptr_raw T (op_T_ptr v)) d = true
    ∧ op_eq (device_ptr_raw T (get v)) d = true
    ∧ op_eq (device_ptr_raw T (get d)) d = true.
Proof.
  intros HT Hc HV. exists (DevicePtr (ptr d)).
  split; [by apply erase_Some|].
  unfold op_eq, device_ptr_raw, op_T_ptr, get; simpl.
  by rewrite Z.eqb_refl.
Qed.

Lemma erase_recover_through_raw_witness :
  ∃ v : device_ptr void_t,
    convert op_device_ptr_Void void_t (device_ptr_raw int_t 4096) = Some v
    ∧ op_eq (device_ptr_raw int_t (op_T_ptr v)) (device_ptr_raw int_t 4096)
      = true
    ∧ op_eq (device_ptr_raw int_t (get v)) (device_ptr_raw int_t 4096) = true
    ∧ op_eq (device_ptr_raw int_t (get (device_ptr_raw int_t 4096)))
            (device_ptr_raw int_t 4096) = true.
Proof.
  apply (erase_recover_through_raw int_t void_t (device_ptr_raw int_t 4096));
    reflexivity.
Defined.
